(** * pointer_traps.c: a checked model of the pointer demonstrations

    The C file [01-embedded-c-fundamentals/pointer_traps.c] is a catalog of
    short functions, each showing one pointer hazard.  Every function is
    embedded here as a computation in a state-and-error monad over a small
    C memory model:

    - objects live in static storage (file-scope variables and
      function-local [static] variables) or in a stack frame that is
      created on entry to a function and destroyed on return;
    - a pointer is null, the address of a byte inside an object, or an
      absolute machine address (a cast integer constant);
    - an access that C leaves undefined stops the computation with
      [UB], and a statement that violates a constraint of the language
      (so that the translation unit is not accepted) stops it with
      [Rejected].

    The address of a local is its place on the stack, as on the machine:
    once the function has returned it designates no object.

    Sizes follow the comments of the source: [int] is 4 bytes (line 224)
    and a data pointer is 4 or 8 bytes (line 225).  The values the source
    stores in an [int] are small constants and no arithmetic is done on
    them, so an [int] is kept as the integer it denotes. *)

From Stdlib Require Import ZArith String Ascii List Lia.
From stdpp Require Import base option list gmap strings pretty.

Open Scope Z_scope.

(* ===================================================================== *)
(** ** Types and sizes *)
(* ===================================================================== *)

(** The functions defined in the file that are used as values
    (lines 183-191). *)
Inductive fname := Handler1 | Handler2.

(** [const int *] is [Tptr (Tconst Tint)], [int *const] is
    [Tconst (Tptr Tint)]. *)
Inductive ctype :=
  | Tvoid
  | Tint
  | Tuint32
  | Tulong
  | Tptr (t : ctype)
  | Tarray (t : ctype) (n : Z)
  | Tfun
  | Tconst (t : ctype)
  | Tvolatile (t : ctype).

(** The two data models the comment on line 225 allows ("4 or 8 bytes"). *)
Inductive data_model := ILP32 | LP64.

Definition sizeof_int : Z := 4.

Definition sizeof_ptr (dm : data_model) : Z :=
  match dm with ILP32 => 4 | LP64 => 8 end.

(** [sizeof]: [None] for the types that have no size ([void], a function). *)
Fixpoint sizeof (dm : data_model) (t : ctype) : option Z :=
  match t with
  | Tvoid => None
  | Tint => Some sizeof_int
  | Tuint32 => Some 4
  | Tulong => Some (sizeof_ptr dm)
  | Tptr _ => Some (sizeof_ptr dm)
  | Tarray t n =>
      match sizeof dm t with
      | Some sz => Some (n * sz)
      | None => None
      end
  | Tfun => None
  | Tconst t => sizeof dm t
  | Tvolatile t => sizeof dm t
  end.

(** Removal of the top-level qualifiers. *)
Fixpoint unqual (t : ctype) : ctype :=
  match t with
  | Tconst t => unqual t
  | Tvolatile t => unqual t
  | _ => t
  end.

Fixpoint is_const (t : ctype) : bool :=
  match t with
  | Tconst _ => true
  | Tvolatile t => is_const t
  | _ => false
  end.

(** A modifiable lvalue: no const qualifier at the top, not an array, and
    a type that has a size. *)
Definition modifiable (dm : data_model) (t : ctype) : bool :=
  negb (is_const t) &&
  match unqual t with
  | Tarray _ _ => false
  | u => match sizeof dm u with Some _ => true | None => false end
  end.

(* ===================================================================== *)
(** ** Values, objects and the machine state *)
(* ===================================================================== *)

(** Where an object lives.  [Local d i] is the [i]-th variable declared in
    the frame at depth [d] of the call stack (depth 0 is the outermost
    call). *)
Inductive base :=
  | Static (name : string)
  | Local (depth idx : nat).

Inductive pointer :=
  | Pnull
  | Pobj (b : base) (off : Z)
  | Pabs (addr : Z).

Inductive val :=
  | Vundef
  | Vint (z : Z)
  | Vptr (p : pointer)
  | Vfun (f : fname).

(** An object: its declared type and its contents, one value per scalar,
    kept at the byte offset where the scalar starts.  An offset without an
    entry holds an indeterminate value. *)
Record object := mk_object {
  o_ty : ctype;
  o_cells : gmap Z val
}.

Definition frame := list object.

Record state := mk_state {
  statics : gmap string object;
  stack : list frame;      (* innermost frame first *)
  out : string             (* what has been written to stdout *)
}.

Definition set_stack (st : list frame) (s : state) : state :=
  mk_state (statics s) st (out s).

Definition set_statics (m : gmap string object) (s : state) : state :=
  mk_state m (stack s) (out s).

Definition set_out (o : string) (s : state) : state :=
  mk_state (statics s) (stack s) o.

(** The frame at depth [d]: the innermost frame of a stack of [n+1] frames
    has depth [n]. *)
Fixpoint frame_at (st : list frame) (d : nat) : option frame :=
  match st with
  | [] => None
  | f :: st' => if Nat.eqb d (length st') then Some f else frame_at st' d
  end.

Fixpoint set_frame_at (st : list frame) (d : nat) (f' : frame) : list frame :=
  match st with
  | [] => []
  | f :: st' =>
      if Nat.eqb d (length st') then f' :: st'
      else f :: set_frame_at st' d f'
  end.

Definition find_object (s : state) (b : base) : option object :=
  match b with
  | Static x => statics s !! x
  | Local d i =>
      match frame_at (stack s) d with
      | Some f => f !! i
      | None => None
      end
  end.

Definition put_object (s : state) (b : base) (o : object) : state :=
  match b with
  | Static x => set_statics (<[x := o]> (statics s)) s
  | Local d i =>
      match frame_at (stack s) d with
      | Some f => set_stack (set_frame_at (stack s) d (<[i := o]> f)) s
      | None => s
      end
  end.

(* ===================================================================== *)
(** ** The monad *)
(* ===================================================================== *)

Inductive ub_kind :=
  | WildPointer          (* use of an indeterminate pointer value *)
  | NullDereference
  | DanglingPointer      (* the object's lifetime has ended *)
  | OutOfBounds
  | IndeterminateValue   (* an indeterminate value is used *)
  | BadValue.            (* a value of the wrong kind for the operation *)

Inductive reject_kind :=
  | NotModifiable        (* assignment to a const or array lvalue *)
  | IncompleteType       (* the type has no size *)
  | NotAPointer
  | BadFormat.

Inductive error :=
  | UB (k : ub_kind)
  | Rejected (k : reject_kind)
  | NoFrame              (* a declaration or a return outside any function *)
  | DeviceAccess.        (* an access to an absolute address: the device
                            behind it is not part of the model *)

Definition M (A : Type) : Type := state -> error + (A * state).

Definition ret {A} (a : A) : M A := fun s => inr (a, s).

Definition bind {A B} (m : M A) (k : A -> M B) : M B :=
  fun s => match m s with
           | inl e => inl e
           | inr (a, s') => k a s'
           end.

Definition fail {A} (e : error) : M A := fun _ => inl e.

Declare Scope c_scope.
Delimit Scope c_scope with C.
Notation "x <- m ;; k" := (bind m (fun x => k))
  (at level 100, m at next level, right associativity) : c_scope.
Notation "m ;; k" := (bind m (fun _ => k))
  (at level 100, right associativity) : c_scope.
Open Scope c_scope.

(* ===================================================================== *)
(** ** Expressions and statements of the C fragment *)
(* ===================================================================== *)

(** A value together with the type the expression has in the source. *)
Record tval := mk_tval { tv_val : val; tv_ty : ctype }.

(** A designated object: where it is, and the type it is accessed with. *)
Record lvalue := mk_lvalue { lv_ptr : pointer; lv_ty : ctype }.

Definition nl : string := String (ascii_of_nat 10) EmptyString.

(** [printf]'s conversions: [%d] and [%lu] consume one integer argument
    and write it in decimal, every character other than [%] is copied.
    The source uses no other conversion. *)
Fixpoint format (fmt : string) (args : list val) : option string :=
  match fmt with
  | EmptyString => Some EmptyString
  | String "%"%char (String "d"%char rest) =>
      match args with
      | Vint z :: args' =>
          match format rest args' with
          | Some r => Some (pretty z +:+ r)
          | None => None
          end
      | _ => None
      end
  | String "%"%char (String "l"%char (String "u"%char rest)) =>
      match args with
      | Vint z :: args' =>
          match format rest args' with
          | Some r => Some (pretty z +:+ r)
          | None => None
          end
      | _ => None
      end
  | String "%"%char _ => None
  | String c rest =>
      match format rest args with
      | Some r => Some (String c r)
      | None => None
      end
  end.

(** The contents of a freshly declared object: the initialisers, laid out
    one element after the other. *)
Fixpoint init_cells (stride : Z) (off : Z) (vs : list val) : gmap Z val :=
  match vs with
  | [] => ∅
  | v :: vs' => <[off := v]> (init_cells stride (off + stride) vs')
  end.

Definition elem_type (t : ctype) : ctype :=
  match unqual t with
  | Tarray e _ => e
  | _ => t
  end.

Definition int_lit (z : Z) : tval := mk_tval (Vint z) Tint.

(** [NULL] *)
Definition null : tval := mk_tval (Vptr Pnull) (Tptr Tvoid).

(** [&l] *)
Definition addrof (l : lvalue) : tval :=
  mk_tval (Vptr (lv_ptr l)) (Tptr (lv_ty l)).

(** [(t) e] between pointer types: the value is kept. *)
Definition cast (t : ctype) (v : tval) : tval := mk_tval (tv_val v) t.

(** The name of a function used as a value. *)
Definition fun_lit (f : fname) : tval := mk_tval (Vfun f) (Tptr Tfun).

Section Machine.

Variable dm : data_model.

(** The checks every access goes through: the accessed type has a size,
    the pointer is the address of a live object, and the accessed bytes
    lie inside it. *)
Definition access (l : lvalue) : M (base * Z * object) := fun s =>
  match sizeof dm (lv_ty l) with
  | None => inl (Rejected IncompleteType)
  | Some sz =>
      match lv_ptr l with
      | Pnull => inl (UB NullDereference)
      | Pabs _ => inl DeviceAccess
      | Pobj b off =>
          match find_object s b with
          | None => inl (UB DanglingPointer)
          | Some o =>
              match sizeof dm (o_ty o) with
              | None => inl (UB BadValue)
              | Some osz =>
                  if (0 <=? off) && (off + sz <=? osz)
                  then inr ((b, off, o), s)
                  else inl (UB OutOfBounds)
              end
          end
      end
  end.

Definition load (l : lvalue) : M val :=
  x <- access l ;;
  let '(_, off, o) := x in
  ret (default Vundef (o_cells o !! off)).

Definition store (l : lvalue) (v : val) : M unit :=
  x <- access l ;;
  let '(b, off, o) := x in
  fun s => inr (tt, put_object s b (mk_object (o_ty o) (<[off := v]> (o_cells o)))).

(** The value of an lvalue used in an expression.  An array is not read:
    it becomes a pointer to its first element. *)
Definition rval (l : lvalue) : M tval :=
  match unqual (lv_ty l) with
  | Tarray e _ => ret (mk_tval (Vptr (lv_ptr l)) (Tptr e))
  | u => v <- load l ;; ret (mk_tval v u)
  end.

(** [l = v] *)
Definition assign (l : lvalue) (v : tval) : M unit :=
  if modifiable dm (lv_ty l) then store l (tv_val v)
  else fail (Rejected NotModifiable).

(** [*p]: the object the pointer value designates.  Nothing is accessed
    yet. *)
Definition star (p : tval) : M lvalue :=
  match unqual (tv_ty p) with
  | Tptr t =>
      match tv_val p with
      | Vptr q => ret (mk_lvalue q t)
      | Vundef => fail (UB WildPointer)
      | _ => fail (UB BadValue)
      end
  | _ => fail (Rejected NotAPointer)
  end.

(** [p + n]: the address moves by [n] times the size of the pointee. *)
Definition padd (p : tval) (n : Z) : M tval :=
  match unqual (tv_ty p) with
  | Tptr t =>
      match sizeof dm t with
      | None => fail (Rejected IncompleteType)
      | Some sz =>
          match tv_val p with
          | Vptr (Pobj b off) => ret (mk_tval (Vptr (Pobj b (off + n * sz))) (Tptr t))
          | Vptr (Pabs a) => ret (mk_tval (Vptr (Pabs (a + n * sz))) (Tptr t))
          | Vptr Pnull => fail (UB NullDereference)
          | Vundef => fail (UB WildPointer)
          | _ => fail (UB BadValue)
          end
      end
  | _ => fail (Rejected NotAPointer)
  end.

(** [p != NULL] *)
Definition ne_null (p : tval) : M bool :=
  match tv_val p with
  | Vptr Pnull => ret false
  | Vptr _ => ret true
  | Vundef => fail (UB IndeterminateValue)
  | _ => fail (UB BadValue)
  end.

(** [sizeof l]: the operand is not evaluated and an array stays an
    array. *)
Definition sizeof_lv (l : lvalue) : M tval :=
  match sizeof dm (lv_ty l) with
  | Some z => ret (mk_tval (Vint z) Tulong)
  | None => fail (Rejected IncompleteType)
  end.

(** A declaration [t x;] ([init = []]), [t x = v;] or [t x[n] = {...};]:
    a new object in the innermost frame. *)
Definition declare (t : ctype) (init : list tval) : M lvalue := fun s =>
  match sizeof dm (elem_type t) with
  | None => inl (Rejected IncompleteType)
  | Some stride =>
      match stack s with
      | [] => inl NoFrame
      | f :: st =>
          inr (mk_lvalue (Pobj (Local (length st) (length f)) 0) t,
               set_stack
                 ((f ++ [mk_object t (init_cells stride 0 (map tv_val init))]) :: st)
                 s)
      end
  end.

Definition printf (fmt : string) (args : list tval) : M unit := fun s =>
  match format fmt (map tv_val args) with
  | Some text => inr (tt, set_out (out s +:+ text) s)
  | None => inl (UB BadValue)
  end.

(** Function entry and return: the frame of the callee is created, and
    destroyed with everything declared in it. *)
Definition enter : M unit := fun s =>
  inr (tt, set_stack ([] :: stack s) s).

Definition leave : M unit := fun s =>
  match stack s with
  | [] => inl NoFrame
  | _ :: st => inr (tt, set_stack st s)
  end.

Definition call {A} (body : M A) : M A :=
  enter ;; r <- body ;; leave ;; ret r.

End Machine.

(* ===================================================================== *)
(** ** The program *)
(* ===================================================================== *)

(** Objects with static storage duration: the file-scope pointer [reg]
    (line 270) and the [static int x = 100] of [update_pointer]
    (line 244).  They are initialised before the program starts. *)
Definition REG_ADDR : Z := 0x40000000.

Definition x_name : string := "update_pointer.x".
Definition reg_name : string := "reg".

Definition x_static : lvalue := mk_lvalue (Pobj (Static x_name) 0) Tint.

Definition reg : lvalue :=
  mk_lvalue (Pobj (Static reg_name) 0) (Tptr (Tvolatile Tuint32)).

Definition program_statics : gmap string object :=
  <[x_name := mk_object Tint (<[0 := Vint 100]> ∅)]>
  (<[reg_name := mk_object (Tptr (Tvolatile Tuint32))
                   (<[0 := Vptr (Pabs REG_ADDR)]> ∅)]> ∅).

Definition init_state : state := mk_state program_statics [] EmptyString.

Section Program.

Variable dm : data_model.

(** Every [*_body] below is the function body of the source, statement by
    statement; it returns the lvalues of the function's locals so that
    they can be inspected at the closing brace.  A [bool] parameter
    enables a line that the source keeps in a comment. *)

(** Lines 26-30.  [line29] enables [*ptr = 10;]. *)
Definition uninitialized_pointer_demo_body (line29 : bool) : M lvalue :=
  ptr <- declare dm (Tptr Tint) [] ;;                     (* int *ptr; *)
  (if line29 then
     p <- rval dm ptr ;; t <- star p ;; assign dm t (int_lit 10)
   else ret tt) ;;
  ret ptr.

Definition uninitialized_pointer_demo : M unit :=
  call (uninitialized_pointer_demo_body false ;; ret tt).

(** Lines 52-60. *)
Definition null_pointer_demo_body : M lvalue :=
  ptr <- declare dm (Tptr Tint) [null] ;;                 (* int *ptr = NULL; *)
  p <- rval dm ptr ;;
  c <- ne_null p ;;                                       (* if (ptr != NULL) *)
  (if c then
     p' <- rval dm ptr ;; t <- star p' ;; assign dm t (int_lit 10)
   else ret tt) ;;
  ret ptr.

Definition null_pointer_demo : M unit :=
  call (null_pointer_demo_body ;; ret tt).

(** Lines 80-84. *)
Definition dangling_pointer_demo_body : M tval :=
  local <- declare dm Tint [int_lit 10] ;;                (* int local = 10; *)
  ret (addrof local).                                     (* return &local; *)

Definition dangling_pointer_demo : M tval :=
  call dangling_pointer_demo_body.

(** Lines 102-115.  [line110] enables [*p1 = 5;], [line114] enables
    [p2 = &b;]. *)
Definition const_pointer_demo_body (line110 line114 : bool)
  : M (lvalue * lvalue * lvalue * lvalue) :=
  a <- declare dm Tint [int_lit 10] ;;                    (* int a = 10; *)
  b <- declare dm Tint [int_lit 20] ;;                    (* int b = 20; *)
  p1 <- declare dm (Tptr (Tconst Tint)) [addrof a] ;;     (* const int *p1 = &a; *)
  p2 <- declare dm (Tconst (Tptr Tint)) [addrof a] ;;     (* int *const p2 = &a; *)
  (if line110 then
     v <- rval dm p1 ;; t <- star v ;; assign dm t (int_lit 5)
   else ret tt) ;;
  assign dm p1 (addrof b) ;;                              (* p1 = &b; *)
  v <- rval dm p2 ;; t <- star v ;;
  assign dm t (int_lit 15) ;;                             (* *p2 = 15; *)
  (if line114 then assign dm p2 (addrof b) else ret tt) ;;
  ret (a, b, p1, p2).

Definition const_pointer_demo : M unit :=
  call (const_pointer_demo_body false false ;; ret tt).

(** Lines 134-140. *)
Definition pointer_arithmetic_demo_body : M (lvalue * lvalue) :=
  arr <- declare dm (Tarray Tint 3)
           [int_lit 10; int_lit 20; int_lit 30] ;;        (* int arr[3] = {10, 20, 30}; *)
  a0 <- rval dm arr ;;
  p <- declare dm (Tptr Tint) [a0] ;;                     (* int *p = arr; *)
  v <- rval dm p ;; q <- padd dm v 1 ;;
  t <- star q ;; x <- rval dm t ;;
  printf ("%d" +:+ nl) [x] ;;                             (* printf("%d\n", *(p + 1)); *)
  ret (arr, p).

Definition pointer_arithmetic_demo : M unit :=
  call (pointer_arithmetic_demo_body ;; ret tt).

(** Lines 160-167.  [line165] enables [printf("%d\n", *vp);]. *)
Definition void_pointer_demo_body (line165 : bool) : M (lvalue * lvalue) :=
  a <- declare dm Tint [int_lit 10] ;;                    (* int a = 10; *)
  vp <- declare dm (Tptr Tvoid)
          [cast (Tptr Tvoid) (addrof a)] ;;               (* void *vp = &a; *)
  (if line165 then
     v <- rval dm vp ;; t <- star v ;; x <- rval dm t ;;
     printf ("%d" +:+ nl) [x]
   else ret tt) ;;
  v <- rval dm vp ;; t <- star (cast (Tptr Tint) v) ;;
  x <- rval dm t ;;
  printf ("%d" +:+ nl) [x] ;;                             (* printf("%d\n", *(int * )vp); *)
  ret (a, vp).

Definition void_pointer_demo : M unit :=
  call (void_pointer_demo_body false ;; ret tt).

(** Lines 183-191. *)
Definition handler1 : M unit :=
  call (printf ("Handler 1" +:+ nl) []).

Definition handler2 : M unit :=
  call (printf ("Handler 2" +:+ nl) []).

Definition fun_body (f : fname) : M unit :=
  match f with
  | Handler1 => handler1
  | Handler2 => handler2
  end.

(** [fp()]: a call through a function pointer. *)
Definition call_fp (v : tval) : M unit :=
  match tv_val v with
  | Vfun f => fun_body f
  | Vundef => fail (UB WildPointer)
  | Vptr Pnull => fail (UB NullDereference)
  | _ => fail (UB BadValue)
  end.

(** Lines 193-202. *)
Definition function_pointer_demo_body : M lvalue :=
  fp <- declare dm (Tptr Tfun) [] ;;                      (* void ( *fp)(void); *)
  assign dm fp (fun_lit Handler1) ;;                      (* fp = handler1; *)
  v <- rval dm fp ;; call_fp v ;;                         (* fp(); *)
  assign dm fp (fun_lit Handler2) ;;                      (* fp = handler2; *)
  v <- rval dm fp ;; call_fp v ;;                         (* fp(); *)
  ret fp.

Definition function_pointer_demo : M unit :=
  call (function_pointer_demo_body ;; ret tt).

(** Lines 219-226. *)
Definition array_pointer_demo_body : M (lvalue * lvalue) :=
  arr <- declare dm (Tarray Tint 5) [] ;;                 (* int arr[5]; *)
  a0 <- rval dm arr ;;
  p <- declare dm (Tptr Tint) [a0] ;;                     (* int *p = arr; *)
  n <- sizeof_lv dm arr ;;
  printf ("%lu" +:+ nl) [n] ;;                            (* printf("%lu\n", sizeof(arr)); *)
  m <- sizeof_lv dm p ;;
  printf ("%lu" +:+ nl) [m] ;;                            (* printf("%lu\n", sizeof(p)); *)
  ret (arr, p).

Definition array_pointer_demo : M unit :=
  call (array_pointer_demo_body ;; ret tt).

(** Lines 242-246.  The parameter [pp] is a local of the callee. *)
Definition update_pointer (arg : tval) : M unit :=
  call (pp <- declare dm (Tptr (Tptr Tint)) [arg] ;;
        v <- rval dm pp ;; t <- star v ;;
        assign dm t (addrof x_static)).                   (* *pp = &x; *)

(** Lines 248-252. *)
Definition double_pointer_demo_body : M lvalue :=
  p <- declare dm (Tptr Tint) [null] ;;                   (* int *p = NULL; *)
  update_pointer (addrof p) ;;                            (* update_pointer(&p); *)
  ret p.

Definition double_pointer_demo : M unit :=
  call (double_pointer_demo_body ;; ret tt).

(** *** The catalog *)

Inductive demo :=
  | UninitializedPointer
  | NullPointer
  | DanglingPointerDemo
  | ConstPointer
  | PointerArithmetic
  | VoidPointer
  | FunctionPointer
  | ArrayPointer
  | DoublePointer.

(** Parameter and return types as declared in the source. *)
Record fsig := mk_fsig { sig_params : list ctype; sig_ret : ctype }.

Definition demo_sig (d : demo) : fsig :=
  match d with
  | DanglingPointerDemo => mk_fsig [] (Tptr Tint)
  | _ => mk_fsig [] Tvoid
  end.

(** Running a demonstration: [None] is the result of a [void] function. *)
Definition void_result (m : M unit) : M (option tval) :=
  m ;; ret None.

Definition run_demo (d : demo) : M (option tval) :=
  match d with
  | UninitializedPointer => void_result uninitialized_pointer_demo
  | NullPointer => void_result null_pointer_demo
  | DanglingPointerDemo => r <- dangling_pointer_demo ;; ret (Some r)
  | ConstPointer => void_result const_pointer_demo
  | PointerArithmetic => void_result pointer_arithmetic_demo
  | VoidPointer => void_result void_pointer_demo
  | FunctionPointer => void_result function_pointer_demo
  | ArrayPointer => void_result array_pointer_demo
  | DoublePointer => void_result double_pointer_demo
  end.

End Program.


(** *** What a demonstration writes and returns *)

Definition demo_output (dm : data_model) (d : demo) : string :=
  match d with
  | PointerArithmetic => "20" +:+ nl
  | VoidPointer => "10" +:+ nl
  | FunctionPointer => "Handler 1" +:+ nl +:+ "Handler 2" +:+ nl
  | ArrayPointer => "20" +:+ nl +:+ pretty (sizeof_ptr dm) +:+ nl
  | _ => EmptyString
  end.

(** The text a handler prints (lines 185 and 190). *)
Definition handler_text (f : fname) : string :=
  match f with
  | Handler1 => "Handler 1" +:+ nl
  | Handler2 => "Handler 2" +:+ nl
  end.

(** The value returned by a demonstration that is entered with [depth]
    frames on the stack. *)
Definition demo_result (d : demo) (depth : nat) : option tval :=
  match d with
  | DanglingPointerDemo =>
      Some (mk_tval (Vptr (Pobj (Local depth 0) 0)) (Tptr Tint))
  | _ => None
  end.

(** *** Ranges *)

(** The values an [int] can hold: [8 * sizeof(int)] bits, two's
    complement. *)
Definition int_range (z : Z) : Prop :=
  - 2 ^ (8 * sizeof_int - 1) <= z < 2 ^ (8 * sizeof_int - 1).

(** The addresses a data pointer can hold, the null address apart. *)
Definition address_range (dm : data_model) (a : Z) : Prop :=
  0 < a < 2 ^ (8 * sizeof_ptr dm).

(** *** Callers *)

(** Demonstrations called one after the other, [d1(); d2(); ...], the
    way a caller of the catalog runs them; a returned value is dropped. *)
Fixpoint run_all (dm : data_model) (ds : list demo) : M unit :=
  match ds with
  | [] => ret tt
  | d :: ds' => run_demo dm d ;; run_all dm ds'
  end.

Fixpoint catalog_output (dm : data_model) (ds : list demo) : string :=
  match ds with
  | [] => EmptyString
  | d :: ds' => demo_output dm d +:+ catalog_output dm ds'
  end.

(** The argument [&v] of a call [update_pointer(&v)], for a variable [v]
    of type [int *] that lives at [b]. *)
Definition addr_of_int_ptr (b : base) : tval :=
  mk_tval (Vptr (Pobj b 0)) (Tptr (Tptr Tint)).

(** What [v] is after [update_pointer(&v)]: its first bytes hold [&x]. *)
Definition redirected (o : object) : object :=
  mk_object (Tptr Tint) (<[0 := Vptr (lv_ptr x_static)]> (o_cells o)).

(* ===================================================================== *)
(** ** Basic facts about the machine *)
(* ===================================================================== *)

Lemma eqb_self_succ n : Nat.eqb n (S n) = false.
Proof. apply Nat.eqb_neq. lia. Qed.

Lemma append_nil_r (s : string) : s +:+ EmptyString = s.
Proof.
  induction s as [|c s IH]; [reflexivity|].
  change (String c (s +:+ EmptyString) = String c s). now rewrite IH.
Qed.

Lemma append_assoc (a b c : string) : (a +:+ b) +:+ c = a +:+ (b +:+ c).
Proof.
  induction a as [|x a IH]; [reflexivity|].
  change (String x ((a +:+ b) +:+ c) = String x (a +:+ (b +:+ c))).
  now rewrite IH.
Qed.

Lemma set_out_nil (s : state) : set_out (out s +:+ EmptyString) s = s.
Proof. destruct s as [sta st o]; unfold set_out; cbn [statics stack out]. f_equal. apply append_nil_r. Qed.

(** No frame lies at or above the height of the stack: the address of a
    local of a function that has returned designates nothing. *)
Lemma frame_at_above (st : list frame) (d : nat) :
  (length st <= d)%nat -> frame_at st d = None.
Proof.
  induction st as [|f st IH]; simpl; intros Hd; [reflexivity|].
  destruct (Nat.eqb_spec d (length st)) as [->|_]; [lia|].
  apply IH; lia.
Qed.

Lemma find_object_above (s : state) (i : nat) :
  find_object s (Local (length (stack s)) i) = None.
Proof. simpl. now rewrite frame_at_above. Qed.

(** Symbolic execution of a body on a state whose stack has an unknown
    tail. *)
Ltac closed_arith :=
  repeat match goal with
  | |- context [Z.leb ?a ?b] =>
      let r := eval vm_compute in (Z.leb a b) in change (Z.leb a b) with r
  | |- context [Z.add ?a ?b] =>
      let r := eval vm_compute in (Z.add a b) in change (Z.add a b) with r
  | |- context [Z.mul ?a ?b] =>
      let r := eval vm_compute in (Z.mul a b) in change (Z.mul a b) with r
  | |- context [format ?f ?a] =>
      let r := eval vm_compute in (format f a) in change (format f a) with r
  end.

Ltac run :=
  repeat (progress (
    cbv beta iota delta
      [bind ret fail call enter leave declare load store access rval assign
       star padd ne_null sizeof_lv printf update_pointer call_fp fun_body
       handler1 handler2 find_object put_object set_stack set_out
       set_statics void_result addrof cast int_lit null fun_lit x_static];
    cbn;
    closed_arith;
    rewrite ?Nat.eqb_refl, ?eqb_self_succ, ?lookup_insert_eq, ?lookup_empty;
    repeat (rewrite lookup_insert_ne by discriminate))).

Ltac run_demo_body :=
  intros;
  match goal with s : state |- _ => destruct s as [sta st o] end;
  match goal with dm : data_model |- _ => destruct dm end;
  run; rewrite ?append_nil_r, ?append_assoc; try reflexivity.

(* ===================================================================== *)
(** ** Each demonstration, run from an arbitrary state *)
(* ===================================================================== *)

Lemma uninitialized_pointer_demo_run dm s :
  uninitialized_pointer_demo dm s = inr (tt, s).
Proof. unfold uninitialized_pointer_demo, uninitialized_pointer_demo_body. run_demo_body. Qed.

Lemma null_pointer_demo_run dm s :
  null_pointer_demo dm s = inr (tt, s).
Proof. unfold null_pointer_demo, null_pointer_demo_body. run_demo_body. Qed.

Lemma dangling_pointer_demo_run dm s :
  dangling_pointer_demo dm s =
  inr (mk_tval (Vptr (Pobj (Local (length (stack s)) 0) 0)) (Tptr Tint), s).
Proof. unfold dangling_pointer_demo, dangling_pointer_demo_body. run_demo_body. Qed.

Lemma const_pointer_demo_run dm s :
  const_pointer_demo dm s = inr (tt, s).
Proof. unfold const_pointer_demo, const_pointer_demo_body. run_demo_body. Qed.

Lemma pointer_arithmetic_demo_run dm s :
  pointer_arithmetic_demo dm s =
  inr (tt, set_out (out s +:+ "20" +:+ nl) s).
Proof. unfold pointer_arithmetic_demo, pointer_arithmetic_demo_body. run_demo_body. Qed.

Lemma void_pointer_demo_run dm s :
  void_pointer_demo dm s = inr (tt, set_out (out s +:+ "10" +:+ nl) s).
Proof. unfold void_pointer_demo, void_pointer_demo_body. run_demo_body. Qed.

Lemma function_pointer_demo_run dm s :
  function_pointer_demo dm s =
  inr (tt, set_out (out s +:+ "Handler 1" +:+ nl +:+ "Handler 2" +:+ nl) s).
Proof. unfold function_pointer_demo, function_pointer_demo_body. run_demo_body. Qed.

Lemma array_pointer_demo_run dm s :
  array_pointer_demo dm s =
  inr (tt, set_out (out s +:+ "20" +:+ nl +:+ pretty (sizeof_ptr dm) +:+ nl) s).
Proof. unfold array_pointer_demo, array_pointer_demo_body. run_demo_body. Qed.

Lemma double_pointer_demo_run dm s :
  double_pointer_demo dm s = inr (tt, s).
Proof. unfold double_pointer_demo, double_pointer_demo_body. run_demo_body. Qed.

(** Two runs from the initial state of the program, on the two data
    models. *)
Example array_pointer_demo_ilp32 :
  array_pointer_demo ILP32 init_state =
  inr (tt, mk_state program_statics [] ("20" +:+ nl +:+ "4" +:+ nl)).
Proof. vm_compute. reflexivity. Qed.

Example function_pointer_demo_lp64 :
  function_pointer_demo LP64 init_state =
  inr (tt, mk_state program_statics []
             ("Handler 1" +:+ nl +:+ "Handler 2" +:+ nl)).
Proof. vm_compute. reflexivity. Qed.

(** The whole catalog: a demonstration always runs to completion, puts the
    stack and the static storage back as it found them, and only appends
    its text to the output. *)
Lemma run_demo_spec dm d s :
  run_demo dm d s =
  inr (demo_result d (length (stack s)),
       set_out (out s +:+ demo_output dm d) s).
Proof.
  destruct d; unfold run_demo, void_result, bind, ret; simpl demo_output;
    simpl demo_result; rewrite ?set_out_nil.
  - now rewrite uninitialized_pointer_demo_run.
  - now rewrite null_pointer_demo_run.
  - now rewrite dangling_pointer_demo_run.
  - now rewrite const_pointer_demo_run.
  - now rewrite pointer_arithmetic_demo_run.
  - now rewrite void_pointer_demo_run.
  - now rewrite function_pointer_demo_run.
  - now rewrite array_pointer_demo_run.
  - now rewrite double_pointer_demo_run.
Qed.

(* ===================================================================== *)
(** ** The demonstrations one by one *)
(* ===================================================================== *)

(** C2.  Pointer arithmetic (lines 134-140).  At the closing brace [arr]
    holds 10, 20, 30 and [p] points to its first element; [p + 1] is the
    address [sizeof(int)] bytes further, which is where the second element
    starts, [*(p + 1)] is that element, 20, and the function has printed
    the line "20". *)
Theorem C2_pointer_arithmetic_second_element (dm : data_model) (s : state) :
  exists arr p s1,
    (enter ;; pointer_arithmetic_demo_body dm) s = inr ((arr, p), s1) /\
    (v <- rval dm p ;; padd dm v 1) s1 =
      inr (mk_tval (Vptr (Pobj (Local (length (stack s)) 0) (1 * sizeof_int)))
             (Tptr Tint), s1) /\
    load dm (mk_lvalue (Pobj (Local (length (stack s)) 0) (1 * sizeof_int)) Tint) s1
      = inr (Vint 20, s1) /\
    (v <- rval dm p ;; q <- padd dm v 1 ;; t <- star q ;; rval dm t) s1 =
      inr (int_lit 20, s1) /\
    out s1 = out s +:+ "20" +:+ nl /\
    pointer_arithmetic_demo dm s = inr (tt, set_out (out s +:+ "20" +:+ nl) s).
Proof.
  destruct s as [sta st o].
  do 3 eexists.
  split; [destruct dm; unfold pointer_arithmetic_demo_body; run; reflexivity|].
  repeat split; destruct dm; run; reflexivity.
Qed.

(** C4.  Function pointer (lines 183-202).  Once [fp] is declared, for
    either handler [f], whatever [fp] held before and whatever has been
    printed so far: after [fp = f], the call [fp()] appends the line of
    that handler, and only that, to the output.  The lines of the two
    handlers differ.  The demonstration as a whole prints "Handler 1" and
    then "Handler 2", each on a line. *)
Theorem C4_function_pointer_dispatch (dm : data_model) (s : state) :
  exists fp s0,
    (enter ;; declare dm (Tptr Tfun) []) s = inr (fp, s0) /\
    out s0 = out s /\
    (forall (f : fname) (held : gmap Z val) (printed : string),
        (assign dm fp (fun_lit f) ;; v <- rval dm fp ;; call_fp v)
          (set_out printed
             (put_object s0 (Local (length (stack s)) 0)
                (mk_object (Tptr Tfun) held))) =
        inr (tt, set_out (printed +:+ handler_text f)
                   (put_object s0 (Local (length (stack s)) 0)
                      (mk_object (Tptr Tfun) (<[0 := Vfun f]> held))))) /\
    handler_text Handler1 <> handler_text Handler2 /\
    function_pointer_demo dm s =
      inr (tt, set_out (out s +:+ "Handler 1" +:+ nl +:+ "Handler 2" +:+ nl) s).
Proof.
  destruct s as [sta st o].
  do 2 eexists.
  split; [destruct dm; run; reflexivity|].
  split; [reflexivity|].
  split; [intros f held printed; destruct dm, f; run; reflexivity|].
  split; [discriminate|].
  apply function_pointer_demo_run.
Qed.

(** C10.  Void pointer (lines 160-167).  [vp] holds the address of [a];
    read through [(int * )vp] it gives back the 10 stored in [a], and that
    is the line the function prints. *)
Theorem C10_void_pointer_cast_recovers_value (dm : data_model) (s : state) :
  exists a vp s1,
    (enter ;; void_pointer_demo_body dm false) s = inr ((a, vp), s1) /\
    rval dm a s1 = inr (int_lit 10, s1) /\
    rval dm vp s1 = inr (mk_tval (Vptr (lv_ptr a)) (Tptr Tvoid), s1) /\
    (v <- rval dm vp ;; t <- star (cast (Tptr Tint) v) ;; rval dm t) s1 =
      inr (int_lit 10, s1) /\
    out s1 = out s +:+ "10" +:+ nl /\
    void_pointer_demo dm s = inr (tt, set_out (out s +:+ "10" +:+ nl) s).
Proof.
  destruct s as [sta st o].
  do 3 eexists.
  split; [destruct dm; unfold void_pointer_demo_body; run; reflexivity|].
  repeat split; destruct dm; run; reflexivity.
Qed.

(** C7.  Null dereference (lines 52-60).  With [ptr] initialised to
    [NULL] the test [ptr != NULL] is false; the guarded write, which would
    be a null dereference, is not executed: the body ends in the very
    state the declaration left, and the function returns with the state it
    was called in. *)
Theorem C7_null_pointer_guard (dm : data_model) (s : state) :
  exists ptr s1,
    (enter ;; declare dm (Tptr Tint) [null]) s = inr (ptr, s1) /\
    (p <- rval dm ptr ;; ne_null p) s1 = inr (false, s1) /\
    (p <- rval dm ptr ;; t <- star p ;; assign dm t (int_lit 10)) s1 =
      inl (UB NullDereference) /\
    (enter ;; null_pointer_demo_body dm) s = inr (ptr, s1) /\
    null_pointer_demo dm s = inr (tt, s).
Proof.
  destruct s as [sta st o].
  do 2 eexists.
  split; [destruct dm; run; reflexivity|].
  repeat split; destruct dm; unfold null_pointer_demo_body; run; reflexivity.
Qed.


(** C5, as stated, fails for the general rule it gives: with 8-byte
    pointers an array of two [int]s, declared and measured the way
    lines 221-225 do, has exactly the size of the pointer to its first
    element. *)
Lemma C5_two_ints_fill_a_pointer :
  1 < 2 /\
  sizeof LP64 (Tarray Tint 2) = sizeof LP64 (Tptr Tint) /\
  exists arr p s1,
    (enter ;;
     arr <- declare LP64 (Tarray Tint 2) [] ;;
     a0 <- rval LP64 arr ;;
     p <- declare LP64 (Tptr Tint) [a0] ;;
     ret (arr, p)) init_state = inr ((arr, p), s1) /\
    sizeof_lv LP64 arr s1 = inr (mk_tval (Vint 8) Tulong, s1) /\
    sizeof_lv LP64 p s1 = inr (mk_tval (Vint 8) Tulong, s1).
Proof.
  split; [lia|]. split; [reflexivity|].
  do 3 eexists. split; [vm_compute; reflexivity|].
  split; reflexivity.
Qed.

(** C5, amended.  Array versus pointer (lines 219-226).  The array of
    five [int]s measures [5 * sizeof(int)] = 20 bytes, the pointer [p] to
    its first element measures the size of a pointer, the two differ, and
    the function prints both.  In general an array of [n] [int]s and a
    pointer have different sizes as soon as [n > 2]. *)
Theorem C5_array_and_pointer_sizes
  (dm : data_model) (s : state) (n : Z) (Hn : 2 < n) :
  (exists arr p s1,
      (enter ;; array_pointer_demo_body dm) s = inr ((arr, p), s1) /\
      rval dm p s1 = inr (mk_tval (Vptr (lv_ptr arr)) (Tptr Tint), s1) /\
      sizeof_lv dm arr s1 = inr (mk_tval (Vint (5 * sizeof_int)) Tulong, s1) /\
      sizeof_lv dm p s1 = inr (mk_tval (Vint (sizeof_ptr dm)) Tulong, s1) /\
      5 * sizeof_int <> sizeof_ptr dm /\
      out s1 = out s +:+ "20" +:+ nl +:+ pretty (sizeof_ptr dm) +:+ nl) /\
  array_pointer_demo dm s =
    inr (tt, set_out (out s +:+ "20" +:+ nl +:+ pretty (sizeof_ptr dm) +:+ nl) s) /\
  sizeof dm (Tarray Tint n) = Some (n * sizeof_int) /\
  sizeof dm (Tarray Tint n) <> sizeof dm (Tptr Tint).
Proof.
  split.
  { destruct s as [sta st o], dm.
    all: do 3 eexists.
    all: split; [unfold array_pointer_demo_body; run; reflexivity|].
    all: repeat split; try discriminate; run; rewrite ?append_assoc;
      reflexivity. }
  split; [apply array_pointer_demo_run|].
  split; [reflexivity|].
  cbn [sizeof]. unfold sizeof_int, sizeof_ptr.
  intros H; injection H as H. destruct dm; lia.
Qed.

Lemma C5_array_and_pointer_sizes_witness :
  2 < 5 /\
  (exists arr p s1,
      (enter ;; array_pointer_demo_body LP64) init_state = inr ((arr, p), s1) /\
      rval LP64 p s1 = inr (mk_tval (Vptr (lv_ptr arr)) (Tptr Tint), s1) /\
      sizeof_lv LP64 arr s1 = inr (mk_tval (Vint (5 * sizeof_int)) Tulong, s1) /\
      sizeof_lv LP64 p s1 = inr (mk_tval (Vint (sizeof_ptr LP64)) Tulong, s1) /\
      5 * sizeof_int <> sizeof_ptr LP64 /\
      out s1 = out init_state +:+ "20" +:+ nl +:+ pretty (sizeof_ptr LP64) +:+ nl) /\
  array_pointer_demo LP64 init_state =
    inr (tt, set_out (out init_state +:+ "20" +:+ nl +:+
                      pretty (sizeof_ptr LP64) +:+ nl) init_state) /\
  sizeof LP64 (Tarray Tint 5) = Some (5 * sizeof_int) /\
  sizeof LP64 (Tarray Tint 5) <> sizeof LP64 (Tptr Tint).
Proof.
  split; [lia|].
  apply (C5_array_and_pointer_sizes LP64 init_state 5); lia.
Defined.

(** C8, as stated, fails: line 28 declares [ptr] without an initialiser,
    so at the closing brace it holds an indeterminate value, not a null
    pointer; comparing it with [NULL] would already be undefined. *)
Lemma C8_pointer_left_indeterminate :
  exists ptr s1,
    (enter ;; uninitialized_pointer_demo_body LP64 false) init_state =
      inr (ptr, s1) /\
    load LP64 ptr s1 = inr (Vundef, s1) /\
    Vundef <> Vptr Pnull /\
    (p <- rval LP64 ptr ;; ne_null p) s1 = inl (UB IndeterminateValue).
Proof.
  do 2 eexists. split; [vm_compute; reflexivity|].
  split; [reflexivity|]. split; [discriminate | reflexivity].
Qed.

(** C8, amended.  Wild pointer (lines 26-30).  [ptr] is declared without
    an initialiser and is never used: the body ends in the state the
    declaration left, with [ptr] still indeterminate, and the function
    returns with the state it was called in.  The write [*ptr = 10] that
    line 29 keeps in a comment would be an access through an indeterminate
    pointer. *)
Theorem C8_wild_pointer_never_used (dm : data_model) (s : state) :
  exists ptr s1,
    (enter ;; declare dm (Tptr Tint) []) s = inr (ptr, s1) /\
    load dm ptr s1 = inr (Vundef, s1) /\
    (enter ;; uninitialized_pointer_demo_body dm false) s = inr (ptr, s1) /\
    uninitialized_pointer_demo dm s = inr (tt, s) /\
    (enter ;; uninitialized_pointer_demo_body dm true) s = inl (UB WildPointer).
Proof.
  destruct s as [sta st o].
  do 2 eexists.
  split; [destruct dm; run; reflexivity|].
  repeat split; destruct dm; unfold uninitialized_pointer_demo_body; run;
    reflexivity.
Qed.

(* ===================================================================== *)
(** ** The catalog as a whole *)
(* ===================================================================== *)

(** C1, as stated, fails: [dangling_pointer_demo] is declared to return
    [int *], the line marked unsafe (line 83) is executed, and the value
    returned is the address of the local declared on line 82, an object
    that no longer exists once the function has returned. *)
Lemma C1_dangling_returns_address_of_local :
  sig_ret (demo_sig DanglingPointerDemo) = Tptr Tint /\
  exists local s1,
    (enter ;; declare LP64 Tint [int_lit 10]) init_state = inr (local, s1) /\
    lv_ptr local = Pobj (Local 0 0) 0 /\
    run_demo LP64 DanglingPointerDemo init_state =
      inr (Some (addrof local), init_state) /\
    load LP64 local init_state = inl (UB DanglingPointer).
Proof.
  split; [reflexivity|].
  do 2 eexists. split; [vm_compute; reflexivity|].
  repeat split.
Qed.

(** C1, amended.  Every demonstration takes no argument and runs to
    completion, leaving the stack and the static storage as it found them
    and only appending its text to the output.  All but
    [dangling_pointer_demo] return nothing.  [dangling_pointer_demo]
    returns the address of its own local, which designates no object after
    the return.  The statements that the source keeps in comments
    (lines 29, 110, 114 and 165) are not part of what runs: with any of
    them enabled the function would stop at it. *)
Theorem C1_catalog_contract (dm : data_model) (d : demo) (s : state) :
  sig_params (demo_sig d) = [] /\
  (exists r,
      run_demo dm d s = inr (r, set_out (out s +:+ demo_output dm d) s) /\
      match d with
      | DanglingPointerDemo =>
          sig_ret (demo_sig d) = Tptr Tint /\
          exists local s1,
            (enter ;; declare dm Tint [int_lit 10]) s = inr (local, s1) /\
            r = Some (addrof local) /\
            load dm local (set_out (out s +:+ demo_output dm d) s) =
              inl (UB DanglingPointer)
      | _ => sig_ret (demo_sig d) = Tvoid /\ r = None
      end) /\
  (enter ;; uninitialized_pointer_demo_body dm true) s = inl (UB WildPointer) /\
  (enter ;; const_pointer_demo_body dm true false) s =
    inl (Rejected NotModifiable) /\
  (enter ;; const_pointer_demo_body dm false true) s =
    inl (Rejected NotModifiable) /\
  (enter ;; void_pointer_demo_body dm true) s = inl (Rejected IncompleteType).
Proof.
  split; [destruct d; reflexivity|].
  split.
  { eexists. split; [apply run_demo_spec|].
    destruct d; try (split; reflexivity).
    split; [reflexivity|].
    exists (mk_lvalue (Pobj (Local (length (stack s)) 0) 0) Tint).
    exists (set_stack ([mk_object Tint (<[0 := Vint 10]> ∅)] :: stack s) s).
    split; [destruct s as [sta st o], dm; run; reflexivity|].
    split; [reflexivity|].
    unfold load, access, bind. cbn [lv_ty lv_ptr sizeof].
    now rewrite (find_object_above (set_out _ s) 0). }
  destruct s as [sta st o].
  repeat split; destruct dm;
    unfold uninitialized_pointer_demo_body, const_pointer_demo_body,
      void_pointer_demo_body; run; reflexivity.
Qed.

(** C9, as stated, fails: the program has objects with static storage
    duration, and they keep their values across calls.  After
    [double_pointer_demo] has returned, the static [x] of [update_pointer]
    still holds 100 and the file-scope [reg] still holds its address; and
    inside [double_pointer_demo] the pointer [p] refers to that static
    object, not to a local. *)
Lemma C9_static_storage_persists :
  exists s1,
    run_demo LP64 DoublePointer init_state = inr (None, s1) /\
    load LP64 x_static s1 = inr (Vint 100, s1) /\
    load LP64 reg s1 = inr (Vptr (Pabs REG_ADDR), s1) /\
    exists p s2,
      (enter ;; double_pointer_demo_body LP64) init_state = inr (p, s2) /\
      load LP64 p s2 = inr (Vptr (Pobj (Static x_name) 0), s2).
Proof.
  eexists. split; [vm_compute; reflexivity|].
  split; [reflexivity|]. split; [reflexivity|].
  do 2 eexists. split; [vm_compute; reflexivity | reflexivity].
Qed.

(** C9, amended.  Static storage exists, but no demonstration changes it.
    Any demonstration [d1] runs to completion and leaves the static
    storage and the stack as they were; a demonstration [d2] run after it
    returns the same value and appends the same text as it does when it is
    run instead of [d1]. *)
Theorem C9_demos_do_not_interfere (dm : data_model) (d1 d2 : demo) (s : state) :
  exists r1 s1,
    run_demo dm d1 s = inr (r1, s1) /\
    statics s1 = statics s /\
    stack s1 = stack s /\
    run_demo dm d2 s =
      inr (demo_result d2 (length (stack s)),
           set_out (out s +:+ demo_output dm d2) s) /\
    run_demo dm d2 s1 =
      inr (demo_result d2 (length (stack s)),
           set_out (out s1 +:+ demo_output dm d2) s1).
Proof.
  do 2 eexists.
  split; [apply run_demo_spec|].
  split; [reflexivity|]. split; [reflexivity|].
  split; [apply run_demo_spec|].
  now rewrite run_demo_spec.
Qed.

(* ===================================================================== *)
(** ** More about the stack and the objects on it *)
(* ===================================================================== *)

Lemma frame_at_Some_lt (st : list frame) (d : nat) (f : frame) :
  frame_at st d = Some f -> (d < length st)%nat.
Proof.
  induction st as [|g st IH]; simpl; [discriminate|].
  destruct (Nat.eqb_spec d (length st)) as [->|_]; [lia|].
  intros H. apply IH in H. lia.
Qed.

Lemma frame_at_push (g : frame) (st : list frame) (d : nat) :
  (d < length st)%nat -> frame_at (g :: st) d = frame_at st d.
Proof.
  intros Hd. simpl.
  destruct (Nat.eqb_spec d (length st)) as [->|_]; [lia | reflexivity].
Qed.

Lemma set_frame_at_push (g : frame) (st : list frame) (d : nat) (f' : frame) :
  (d < length st)%nat ->
  set_frame_at (g :: st) d f' = g :: set_frame_at st d f'.
Proof.
  intros Hd. simpl.
  destruct (Nat.eqb_spec d (length st)) as [->|_]; [lia | reflexivity].
Qed.

Lemma length_set_frame_at (st : list frame) (d : nat) (f' : frame) :
  length (set_frame_at st d f') = length st.
Proof.
  induction st as [|g st IH]; simpl; [reflexivity|].
  destruct (Nat.eqb d (length st)); simpl; [reflexivity | now rewrite IH].
Qed.

Lemma frame_at_set_eq (st : list frame) (d : nat) (f f' : frame) :
  frame_at st d = Some f -> frame_at (set_frame_at st d f') d = Some f'.
Proof.
  induction st as [|g st IH]; simpl; [discriminate|].
  destruct (Nat.eqb_spec d (length st)) as [->|Hne]; simpl.
  - now rewrite Nat.eqb_refl.
  - rewrite length_set_frame_at.
    destruct (Nat.eqb_spec d (length st)); [contradiction | exact IH].
Qed.

Lemma frame_at_set_ne (st : list frame) (d d' : nat) (f' : frame) :
  d <> d' -> frame_at (set_frame_at st d f') d' = frame_at st d'.
Proof.
  intros Hne. induction st as [|g st IH]; simpl; [reflexivity|].
  destruct (Nat.eqb_spec d (length st)) as [->|Hd]; simpl.
  - destruct (Nat.eqb_spec d' (length st)); [congruence | reflexivity].
  - rewrite length_set_frame_at.
    destruct (Nat.eqb d' (length st)); [reflexivity | exact IH].
Qed.

Lemma set_frame_at_twice (st : list frame) (d : nat) (f1 f2 : frame) :
  set_frame_at (set_frame_at st d f1) d f2 = set_frame_at st d f2.
Proof.
  induction st as [|g st IH]; simpl; [reflexivity|].
  destruct (Nat.eqb_spec d (length st)) as [->|Hd]; simpl.
  - now rewrite Nat.eqb_refl.
  - rewrite length_set_frame_at.
    destruct (Nat.eqb_spec d (length st)); [contradiction | now rewrite IH].
Qed.

(** Writing an object and reading it back; writing leaves the other
    objects alone; the last write wins. *)
Lemma find_put_eq (s : state) (b : base) (o o' : object) :
  find_object s b = Some o -> find_object (put_object s b o') b = Some o'.
Proof.
  destruct s as [sta st out0], b as [x|d i]; simpl.
  - intros _. apply lookup_insert_eq.
  - destruct (frame_at st d) as [f|] eqn:Hf; [|discriminate].
    intros Hi. simpl. rewrite (frame_at_set_eq _ _ _ _ Hf).
    apply list_lookup_insert_eq. now apply lookup_lt_Some in Hi.
Qed.

Lemma find_put_ne (s : state) (b b' : base) (o' : object) :
  b <> b' -> find_object (put_object s b o') b' = find_object s b'.
Proof.
  destruct s as [sta st out0], b as [x|d i], b' as [x'|d' i']; simpl;
    intros Hne; try reflexivity.
  - apply lookup_insert_ne. congruence.
  - destruct (frame_at st d); reflexivity.
  - destruct (frame_at st d) as [f|] eqn:Hf; [|reflexivity]. simpl.
    destruct (Nat.eq_dec d d') as [<-|Hd].
    + rewrite (frame_at_set_eq _ _ _ _ Hf), Hf.
      apply list_lookup_insert_ne. congruence.
    + now rewrite frame_at_set_ne.
Qed.

Lemma put_put_eq (s : state) (b : base) (o o1 o2 : object) :
  find_object s b = Some o ->
  put_object (put_object s b o1) b o2 = put_object s b o2.
Proof.
  destruct s as [sta st out0], b as [x|d i]; simpl.
  - intros _. unfold set_statics. simpl. now rewrite insert_insert_eq.
  - destruct (frame_at st d) as [f|] eqn:Hf; [|discriminate].
    intros Hi. simpl. rewrite (frame_at_set_eq _ _ _ _ Hf).
    unfold set_stack. simpl.
    rewrite set_frame_at_twice.
    do 2 f_equal. apply list_insert_insert_eq.
Qed.

Lemma put_object_out (s : state) (b : base) (o : object) :
  out (put_object s b o) = out s.
Proof.
  destruct s as [sta st out0], b as [x|d i]; simpl; [reflexivity|].
  destruct (frame_at st d); reflexivity.
Qed.

(* ===================================================================== *)
(** ** [update_pointer] on its own *)
(* ===================================================================== *)

Ltac run_with H1 H2 H3 :=
  repeat (progress (run; rewrite ?H1, ?H2, ?H3)).

(** The call [update_pointer(&v)] for any live variable [v] of type
    [int *]. *)
Lemma update_pointer_run dm s b o
  (Hb : find_object s b = Some o) (Ht : o_ty o = Tptr Tint) :
  update_pointer dm (addr_of_int_ptr b) s =
  inr (tt, put_object s b (redirected o)).
Proof.
  destruct s as [sta st out0], o as [ty cells]. simpl in Ht. subst ty.
  destruct b as [x|d i]; simpl in Hb.
  - destruct dm; unfold addr_of_int_ptr, redirected;
      run_with Hb Hb Hb; reflexivity.
  - destruct (frame_at st d) as [f|] eqn:Hf; [|discriminate].
    assert (Hd : Nat.eqb d (length st) = false).
    { apply Nat.eqb_neq. apply frame_at_Some_lt in Hf. lia. }
    destruct dm; unfold addr_of_int_ptr, redirected;
      run_with Hd Hf Hb; reflexivity.
Qed.

(** Reading a variable that holds [&x]. *)
Lemma rval_redirected dm s b o (Hb : find_object s b = Some (redirected o)) :
  rval dm (mk_lvalue (Pobj b 0) (Tptr Tint)) s =
  inr (mk_tval (Vptr (lv_ptr x_static)) (Tptr Tint), s).
Proof.
  unfold rval, load, access, bind, ret. cbn [lv_ty lv_ptr unqual sizeof].
  rewrite Hb. cbn [redirected o_ty o_cells sizeof].
  replace ((0 <=? 0) && (0 + sizeof_ptr dm <=? sizeof_ptr dm)) with true
    by (destruct dm; reflexivity).
  cbn. now rewrite lookup_insert_eq.
Qed.

(** C3.  Double pointer (lines 242-252).  The caller's [p] is the local
    that [double_pointer_demo] declares, and it holds [NULL] before the
    call.  The call [update_pointer(&p)] made in that state changes no
    object but [p].  The body of [double_pointer_demo] is that
    declaration followed by that call: at its closing brace [p] holds the
    address of the static [x], it is not null, and [*p] is 100. *)
Theorem C3_double_pointer_redirected (dm : data_model) (s : state)
  (Hx : statics s !! x_name = Some (mk_object Tint (<[0 := Vint 100]> ∅))) :
  exists p s0 s1,
    (enter ;; declare dm (Tptr Tint) [null]) s = inr (p, s0) /\
    p = mk_lvalue (Pobj (Local (length (stack s)) 0) 0) (Tptr Tint) /\
    rval dm p s0 = inr (mk_tval (Vptr Pnull) (Tptr Tint), s0) /\
    (v <- rval dm p ;; ne_null v) s0 = inr (false, s0) /\
    update_pointer dm (addrof p) s0 = inr (tt, s1) /\
    (forall b' : base,
        Local (length (stack s)) 0 <> b' ->
        find_object s1 b' = find_object s0 b') /\
    (enter ;; double_pointer_demo_body dm) s = inr (p, s1) /\
    rval dm p s1 = inr (mk_tval (Vptr (lv_ptr x_static)) (Tptr Tint), s1) /\
    (v <- rval dm p ;; ne_null v) s1 = inr (true, s1) /\
    (v <- rval dm p ;; t <- star v ;; rval dm t) s1 = inr (int_lit 100, s1).
Proof.
  destruct s as [sta st o]. cbn in Hx. cbn [stack].
  pose (o0 := mk_object (Tptr Tint) (<[0 := Vptr Pnull]> ∅)).
  pose (s0 := mk_state sta ([o0] :: st) o).
  assert (H0 : find_object s0 (Local (length st) 0) = Some o0).
  { cbn. now rewrite Nat.eqb_refl. }
  exists (mk_lvalue (Pobj (Local (length st) 0) 0) (Tptr Tint)), s0,
    (put_object s0 (Local (length st) 0) (redirected o0)).
  split; [destruct dm; run; reflexivity|].
  split; [reflexivity|].
  split; [destruct dm; run; reflexivity|].
  split; [destruct dm; run; reflexivity|].
  split; [apply (update_pointer_run dm s0 _ o0 H0); reflexivity|].
  split; [intros b' Hne; now apply find_put_ne|].
  split; [destruct dm; unfold double_pointer_demo_body; run; reflexivity|].
  split; [apply (rval_redirected dm _ _ o0); now apply (find_put_eq s0 _ o0)|].
  split; destruct dm; run_with Hx Hx Hx; reflexivity.
Qed.

Lemma C3_double_pointer_redirected_witness :
  statics init_state !! x_name = Some (mk_object Tint (<[0 := Vint 100]> ∅)) /\
  exists p s0 s1,
    (enter ;; declare LP64 (Tptr Tint) [null]) init_state = inr (p, s0) /\
    p = mk_lvalue (Pobj (Local (length (stack init_state)) 0) 0) (Tptr Tint) /\
    rval LP64 p s0 = inr (mk_tval (Vptr Pnull) (Tptr Tint), s0) /\
    (v <- rval LP64 p ;; ne_null v) s0 = inr (false, s0) /\
    update_pointer LP64 (addrof p) s0 = inr (tt, s1) /\
    (forall b' : base,
        Local (length (stack init_state)) 0 <> b' ->
        find_object s1 b' = find_object s0 b') /\
    (enter ;; double_pointer_demo_body LP64) init_state = inr (p, s1) /\
    rval LP64 p s1 = inr (mk_tval (Vptr (lv_ptr x_static)) (Tptr Tint), s1) /\
    (v <- rval LP64 p ;; ne_null v) s1 = inr (true, s1) /\
    (v <- rval LP64 p ;; t <- star v ;; rval LP64 t) s1 = inr (int_lit 100, s1).
Proof.
  split; [reflexivity|].
  apply (C3_double_pointer_redirected LP64 init_state); reflexivity.
Defined.

Lemma put_object_depth (s : state) (b : base) (o : object) :
  length (stack (put_object s b o)) = length (stack s).
Proof.
  destruct s as [sta st out0], b as [x|d i]; simpl; [reflexivity|].
  destruct (frame_at st d); simpl; [apply length_set_frame_at | reflexivity].
Qed.

(** X1.  [update_pointer] (lines 242-246) called on the address of any
    live variable of type [int *], in any frame or in static storage:
    whatever the variable held, it holds [&x] afterwards; no other object
    changes, the stack is as deep as before and nothing is printed. *)
Theorem update_pointer_redirects_any_variable
  (dm : data_model) (s : state) (b : base) (o : object)
  (Hb : find_object s b = Some o) (Ht : o_ty o = Tptr Tint) :
  exists s',
    update_pointer dm (addr_of_int_ptr b) s = inr (tt, s') /\
    rval dm (mk_lvalue (Pobj b 0) (Tptr Tint)) s' =
      inr (mk_tval (Vptr (lv_ptr x_static)) (Tptr Tint), s') /\
    (forall b', b <> b' -> find_object s' b' = find_object s b') /\
    length (stack s') = length (stack s) /\
    out s' = out s.
Proof.
  exists (put_object s b (redirected o)).
  split; [now apply update_pointer_run|].
  split; [apply (rval_redirected dm _ b o); now apply (find_put_eq s b o)|].
  split; [intros b' Hne; now apply find_put_ne|].
  split; [apply put_object_depth | apply put_object_out].
Qed.

Lemma update_pointer_redirects_any_variable_witness :
  find_object
    (mk_state program_statics
         [[mk_object Tint (<[0 := Vint 3]> ∅);
           mk_object (Tptr Tint) (<[0 := Vptr Pnull]> ∅)]] EmptyString)
    (Local 0 1) = Some (mk_object (Tptr Tint) (<[0 := Vptr Pnull]> ∅)) /\
  o_ty (mk_object (Tptr Tint) (<[0 := Vptr Pnull]> ∅)) = Tptr Tint /\
  exists s',
    update_pointer LP64 (addr_of_int_ptr (Local 0 1))
      (mk_state program_statics
         [[mk_object Tint (<[0 := Vint 3]> ∅);
           mk_object (Tptr Tint) (<[0 := Vptr Pnull]> ∅)]] EmptyString) = inr (tt, s') /\
    rval LP64 (mk_lvalue (Pobj (Local 0 1) 0) (Tptr Tint)) s' =
      inr (mk_tval (Vptr (lv_ptr x_static)) (Tptr Tint), s') /\
    (forall b', Local 0 1 <> b' ->
       find_object s' b' =
       find_object
         (mk_state program_statics
         [[mk_object Tint (<[0 := Vint 3]> ∅);
           mk_object (Tptr Tint) (<[0 := Vptr Pnull]> ∅)]] EmptyString) b') /\
    length (stack s') = 1%nat /\
    out s' = EmptyString.
Proof.
  split; [reflexivity|]. split; [reflexivity|].
  apply (update_pointer_redirects_any_variable LP64
           (mk_state program_statics
         [[mk_object Tint (<[0 := Vint 3]> ∅);
           mk_object (Tptr Tint) (<[0 := Vptr Pnull]> ∅)]] EmptyString)
           (Local 0 1) (mk_object (Tptr Tint) (<[0 := Vptr Pnull]> ∅)));
    reflexivity.
Defined.

(** X2.  [update_pointer] does not test its argument before the write
    [*pp = &x] (line 245): called with a null pointer it dereferences it,
    and called with an indeterminate pointer it uses it. *)
Theorem update_pointer_unchecked_argument (dm : data_model) (s : state) :
  update_pointer dm (cast (Tptr (Tptr Tint)) null) s =
    inl (UB NullDereference) /\
  update_pointer dm (mk_tval Vundef (Tptr (Tptr Tint))) s =
    inl (UB WildPointer).
Proof.
  destruct s as [sta st o].
  split; destruct dm; run; reflexivity.
Qed.

Lemma redirected_twice (o : object) : redirected (redirected o) = redirected o.
Proof. unfold redirected. cbn [o_cells]. now rewrite insert_insert_eq. Qed.

(** X3.  Calling [update_pointer] twice on the same variable leaves the
    state the first call left. *)
Theorem update_pointer_idempotent
  (dm : data_model) (s : state) (b : base) (o : object)
  (Hb : find_object s b = Some o) (Ht : o_ty o = Tptr Tint) :
  (update_pointer dm (addr_of_int_ptr b) ;;
   update_pointer dm (addr_of_int_ptr b)) s =
  update_pointer dm (addr_of_int_ptr b) s.
Proof.
  unfold bind. rewrite (update_pointer_run dm s b o Hb Ht).
  rewrite (update_pointer_run dm _ b (redirected o));
    [|now apply (find_put_eq s b o) | reflexivity].
  now rewrite redirected_twice, (put_put_eq s b o).
Qed.

Lemma update_pointer_idempotent_witness :
  find_object
    (mk_state program_statics [[mk_object (Tptr Tint) (<[0 := Vptr Pnull]> ∅)]] EmptyString)
    (Local 0 0) = Some (mk_object (Tptr Tint) (<[0 := Vptr Pnull]> ∅)) /\
  o_ty (mk_object (Tptr Tint) (<[0 := Vptr Pnull]> ∅)) = Tptr Tint /\
  (update_pointer ILP32 (addr_of_int_ptr (Local 0 0)) ;;
   update_pointer ILP32 (addr_of_int_ptr (Local 0 0)))
    (mk_state program_statics [[mk_object (Tptr Tint) (<[0 := Vptr Pnull]> ∅)]] EmptyString) =
  update_pointer ILP32 (addr_of_int_ptr (Local 0 0))
    (mk_state program_statics [[mk_object (Tptr Tint) (<[0 := Vptr Pnull]> ∅)]] EmptyString).
Proof.
  split; [reflexivity|]. split; [reflexivity|].
  apply (update_pointer_idempotent ILP32
           (mk_state program_statics [[mk_object (Tptr Tint) (<[0 := Vptr Pnull]> ∅)]] EmptyString)
           (Local 0 0) (mk_object (Tptr Tint) (<[0 := Vptr Pnull]> ∅)));
    reflexivity.
Defined.

(** X4.  Every caller is handed the same address: after
    [update_pointer(&v1); update_pointer(&v2);] on two different live
    [int *] variables, both hold the same pointer, the address of the one
    static [x]. *)
Theorem update_pointer_same_address_for_all
  (dm : data_model) (s : state) (b1 b2 : base) (o1 o2 : object)
  (H1 : find_object s b1 = Some o1) (T1 : o_ty o1 = Tptr Tint)
  (H2 : find_object s b2 = Some o2) (T2 : o_ty o2 = Tptr Tint)
  (Hne : b1 <> b2) :
  exists s',
    (update_pointer dm (addr_of_int_ptr b1) ;;
     update_pointer dm (addr_of_int_ptr b2)) s = inr (tt, s') /\
    rval dm (mk_lvalue (Pobj b1 0) (Tptr Tint)) s' =
      inr (mk_tval (Vptr (lv_ptr x_static)) (Tptr Tint), s') /\
    rval dm (mk_lvalue (Pobj b2 0) (Tptr Tint)) s' =
      inr (mk_tval (Vptr (lv_ptr x_static)) (Tptr Tint), s').
Proof.
  exists (put_object (put_object s b1 (redirected o1)) b2 (redirected o2)).
  assert (H2' : find_object (put_object s b1 (redirected o1)) b2 = Some o2)
    by now rewrite find_put_ne.
  split.
  { unfold bind. rewrite (update_pointer_run dm s b1 o1 H1 T1).
    now rewrite (update_pointer_run dm _ b2 o2 H2' T2). }
  split.
  - apply (rval_redirected dm _ b1 o1).
    rewrite find_put_ne by congruence. now apply (find_put_eq s b1 o1).
  - apply (rval_redirected dm _ b2 o2). now apply (find_put_eq _ b2 o2).
Qed.

Lemma update_pointer_same_address_for_all_witness :
  find_object
    (mk_state program_statics
       [[mk_object (Tptr Tint) (<[0 := Vptr Pnull]> ∅)];
        [mk_object (Tptr Tint) (<[0 := Vptr Pnull]> ∅)]] EmptyString)
    (Local 0 0) = Some (mk_object (Tptr Tint) (<[0 := Vptr Pnull]> ∅)) /\
  o_ty (mk_object (Tptr Tint) (<[0 := Vptr Pnull]> ∅)) = Tptr Tint /\
  find_object
    (mk_state program_statics
       [[mk_object (Tptr Tint) (<[0 := Vptr Pnull]> ∅)];
        [mk_object (Tptr Tint) (<[0 := Vptr Pnull]> ∅)]] EmptyString)
    (Local 1 0) = Some (mk_object (Tptr Tint) (<[0 := Vptr Pnull]> ∅)) /\
  Local 0 0 <> Local 1 0 /\
  exists s',
    (update_pointer LP64 (addr_of_int_ptr (Local 0 0)) ;;
     update_pointer LP64 (addr_of_int_ptr (Local 1 0)))
      (mk_state program_statics
       [[mk_object (Tptr Tint) (<[0 := Vptr Pnull]> ∅)];
        [mk_object (Tptr Tint) (<[0 := Vptr Pnull]> ∅)]] EmptyString) = inr (tt, s') /\
    rval LP64 (mk_lvalue (Pobj (Local 0 0) 0) (Tptr Tint)) s' =
      inr (mk_tval (Vptr (lv_ptr x_static)) (Tptr Tint), s') /\
    rval LP64 (mk_lvalue (Pobj (Local 1 0) 0) (Tptr Tint)) s' =
      inr (mk_tval (Vptr (lv_ptr x_static)) (Tptr Tint), s').
Proof.
  split; [reflexivity|]. split; [reflexivity|].
  split; [reflexivity|]. split; [discriminate|].
  apply (update_pointer_same_address_for_all LP64
           (mk_state program_statics
       [[mk_object (Tptr Tint) (<[0 := Vptr Pnull]> ∅)];
        [mk_object (Tptr Tint) (<[0 := Vptr Pnull]> ∅)]] EmptyString)
           (Local 0 0) (Local 1 0) (mk_object (Tptr Tint) (<[0 := Vptr Pnull]> ∅)) (mk_object (Tptr Tint) (<[0 := Vptr Pnull]> ∅)));
    try reflexivity; discriminate.
Defined.

(** X5.  The [x] of [update_pointer] is initialised once, not on every
    call (line 244), and the pointers handed out by different calls alias
    it: a value [z] of type [int] stored through the pointer from one call
    is what the pointer from a later call reads.  The caller here is
    [int *p = NULL; update_pointer(&p); *p = z;
     int *q = NULL; update_pointer(&q);] followed by a read of [*q]. *)
Theorem update_pointer_static_is_shared
  (dm : data_model) (s : state) (cells : gmap Z val) (z : Z)
  (Hz : int_range z)
  (Hx : statics s !! x_name = Some (mk_object Tint cells)) :
  exists s',
    (enter ;;
     p <- declare dm (Tptr Tint) [null] ;;
     update_pointer dm (addrof p) ;;
     vp <- rval dm p ;; t <- star vp ;; assign dm t (int_lit z) ;;
     q <- declare dm (Tptr Tint) [null] ;;
     update_pointer dm (addrof q) ;;
     vq <- rval dm q ;; t' <- star vq ;; rval dm t') s =
    inr (int_lit z, s') /\
    statics s' !! x_name = Some (mk_object Tint (<[0 := Vint z]> cells)).
Proof.
  destruct s as [sta st o]. cbn in Hx.
  destruct dm; eexists; (split; [run_with Hx Hx Hx; reflexivity|]);
    apply lookup_insert_eq.
Qed.

Lemma update_pointer_static_is_shared_witness :
  int_range 7 /\
  statics init_state !! x_name = Some (mk_object Tint (<[0 := Vint 100]> ∅)) /\
  exists s',
    (enter ;;
     p <- declare LP64 (Tptr Tint) [null] ;;
     update_pointer LP64 (addrof p) ;;
     vp <- rval LP64 p ;; t <- star vp ;; assign LP64 t (int_lit 7) ;;
     q <- declare LP64 (Tptr Tint) [null] ;;
     update_pointer LP64 (addrof q) ;;
     vq <- rval LP64 q ;; t' <- star vq ;; rval LP64 t') init_state =
    inr (int_lit 7, s') /\
    statics s' !! x_name =
      Some (mk_object Tint (<[0 := Vint 7]> (<[0 := Vint 100]> ∅))).
Proof.
  assert (H7 : int_range 7) by (unfold int_range, sizeof_int; simpl; lia).
  split; [exact H7|].
  split; [reflexivity|].
  apply (update_pointer_static_is_shared LP64 init_state
           (<[0 := Vint 100]> ∅) 7 H7).
  reflexivity.
Defined.

(* ===================================================================== *)
(** ** Callers of the catalog *)
(* ===================================================================== *)

Lemma run_all_run (dm : data_model) (ds : list demo) (s : state) :
  run_all dm ds s =
  inr (tt, set_out (out s +:+ catalog_output dm ds) s).
Proof.
  revert s. induction ds as [|d ds IH]; intros s.
  - cbn [run_all catalog_output]. unfold ret. now rewrite set_out_nil.
  - cbn [run_all catalog_output]. unfold bind.
    rewrite run_demo_spec, IH.
    destruct s as [sta st o]. unfold set_out. cbn [statics stack out].
    now rewrite append_assoc.
Qed.

(** X6.  Any sequence of demonstrations, called one after the other from
    any state, runs to completion; what it prints is the texts of the
    demonstrations in the order of the calls, and the stack and the static
    storage end as they began. *)
Theorem run_all_output (dm : data_model) (ds : list demo) (s : state) :
  exists s',
    run_all dm ds s = inr (tt, s') /\
    out s' = out s +:+ catalog_output dm ds /\
    stack s' = stack s /\
    statics s' = statics s.
Proof.
  eexists. split; [apply run_all_run|]. repeat split.
Qed.

(* ===================================================================== *)
(** ** Edges of the demonstrations *)
(* ===================================================================== *)

(** Symbolic execution when an integer of the program is a variable:
    only arithmetic on numerals is evaluated. *)
Ltac is_numeral_pos p :=
  lazymatch p with
  | xH => idtac
  | xI ?q => is_numeral_pos q
  | xO ?q => is_numeral_pos q
  end.

Ltac is_numeral z :=
  lazymatch z with
  | Z0 => idtac
  | Zpos ?p => is_numeral_pos p
  | Zneg ?p => is_numeral_pos p
  end.

Ltac numeral_arith :=
  repeat match goal with
  | |- context [Z.leb ?a ?b] =>
      is_numeral a; is_numeral b;
      let r := eval vm_compute in (Z.leb a b) in change (Z.leb a b) with r
  | |- context [Z.add ?a ?b] =>
      is_numeral a; is_numeral b;
      let r := eval vm_compute in (Z.add a b) in change (Z.add a b) with r
  | |- context [Z.mul ?a ?b] =>
      is_numeral a; is_numeral b;
      let r := eval vm_compute in (Z.mul a b) in change (Z.mul a b) with r
  end.

Ltac run_sym :=
  repeat (progress (
    cbv beta iota delta
      [bind ret fail call enter leave declare load store access rval assign
       star padd ne_null sizeof_lv find_object put_object set_stack set_out
       set_statics addrof cast int_lit null fun_lit x_static sizeof_int];
    cbn;
    numeral_arith;
    rewrite ?Nat.eqb_refl, ?eqb_self_succ, ?lookup_insert_eq, ?lookup_empty;
    repeat (rewrite lookup_insert_ne by discriminate))).

(** X7.  The array of [pointer_arithmetic_demo] (line 136) has three
    elements: at the closing brace [*(p + k)] is the [k]-th initialiser
    for [k] = 0, 1, 2, and for every other [k], on either side, the
    access lies outside the array. *)
Theorem pointer_arithmetic_bounds (dm : data_model) (s : state) :
  exists arr p s1,
    (enter ;; pointer_arithmetic_demo_body dm) s = inr ((arr, p), s1) /\
    forall k : Z,
      (v <- rval dm p ;; q <- padd dm v k ;; t <- star q ;; rval dm t) s1 =
      if (0 <=? k) && (k <? 3)
      then inr (int_lit (nth (Z.to_nat k) [10; 20; 30] 0), s1)
      else inl (UB OutOfBounds).
Proof.
  destruct s as [sta st o].
  assert (Hcase : forall k : Z,
             k = 0 \/ k = 1 \/ k = 2 \/ (0 <=? k) && (k <? 3) = false).
  { intros k.
    destruct (Z.leb_spec 0 k), (Z.ltb_spec k 3); cbn [andb]; lia. }
  destruct dm; do 3 eexists;
    (split; [unfold pointer_arithmetic_demo_body; run; reflexivity|]);
    intros k;
    destruct (Hcase k) as [->|[->|[->|Hk]]];
    try (run; reflexivity);
    rewrite Hk; run_sym;
    (replace ((0 <=? 0 + k * 4) && (0 + k * 4 + 4 <=? 12)) with false;
       [reflexivity|]);
    symmetry;
    destruct (Z.leb_spec 0 k), (Z.ltb_spec k 3); try discriminate;
    destruct (Z.leb_spec 0 (0 + k * 4)), (Z.leb_spec (0 + k * 4 + 4) 12);
    cbn [andb]; try reflexivity; lia.
Qed.

(** X8.  In [function_pointer_demo] (lines 193-202) the two calls through
    [fp] do exactly what the direct calls [handler1(); handler2();] do:
    from any state the two end in the same state, with the same output. *)
Theorem function_pointer_demo_is_direct_calls (dm : data_model) (s : state) :
  function_pointer_demo dm s = (handler1 ;; handler2) s.
Proof.
  rewrite function_pointer_demo_run.
  destruct s as [sta st o]. run. now rewrite append_assoc.
Qed.

(** X9.  The file-scope [reg] (lines 269-270) is a pointer to a 4-byte
    register at address 0x40000000.  No demonstration changes it: after
    any sequence of demonstrations it still holds that address, and
    [reg + n] is the address [4 * n] bytes further, with 4-byte and with
    8-byte pointers alike, as long as that address is one a pointer can
    hold. *)
Theorem reg_address_is_stable
  (dm : data_model) (ds : list demo) (s : state) (n : Z)
  (Hn : address_range dm (0x40000000 + n * 4))
  (Hreg : statics s !! reg_name =
          Some (mk_object (Tptr (Tvolatile Tuint32))
                  (<[0 := Vptr (Pabs REG_ADDR)]> ∅))) :
  exists s',
    run_all dm ds s = inr (tt, s') /\
    rval dm reg s' =
      inr (mk_tval (Vptr (Pabs 0x40000000)) (Tptr (Tvolatile Tuint32)), s') /\
    (v <- rval dm reg ;; padd dm v n) s' =
      inr (mk_tval (Vptr (Pabs (0x40000000 + n * 4)))
             (Tptr (Tvolatile Tuint32)), s').
Proof.
  eexists. split; [apply run_all_run|].
  assert (Hread : rval dm reg (set_out (out s +:+ catalog_output dm ds) s) =
                  inr (mk_tval (Vptr (Pabs REG_ADDR)) (Tptr (Tvolatile Tuint32)),
                       set_out (out s +:+ catalog_output dm ds) s)).
  { unfold reg, rval, load, access, bind, ret.
    cbn [lv_ty lv_ptr unqual sizeof find_object set_out statics].
    rewrite Hreg. cbn [o_ty o_cells sizeof].
    replace ((0 <=? 0) && (0 + sizeof_ptr dm <=? sizeof_ptr dm)) with true
      by (destruct dm; reflexivity).
    cbn [andb o_cells]. cbv beta iota. cbn [o_cells].
    now rewrite lookup_insert_eq. }
  split; [exact Hread|].
  unfold bind at 1. rewrite Hread. reflexivity.
Qed.

Lemma reg_address_is_stable_witness :
  address_range ILP32 (0x40000000 + 2 * 4) /\
  statics init_state !! reg_name =
    Some (mk_object (Tptr (Tvolatile Tuint32))
            (<[0 := Vptr (Pabs REG_ADDR)]> ∅)) /\
  exists s',
    run_all ILP32 [DoublePointer; ArrayPointer] init_state = inr (tt, s') /\
    rval ILP32 reg s' =
      inr (mk_tval (Vptr (Pabs 0x40000000)) (Tptr (Tvolatile Tuint32)), s') /\
    (v <- rval ILP32 reg ;; padd ILP32 v 2) s' =
      inr (mk_tval (Vptr (Pabs (0x40000000 + 2 * 4)))
             (Tptr (Tvolatile Tuint32)), s').
Proof.
  assert (H2 : address_range ILP32 (0x40000000 + 2 * 4))
    by (unfold address_range, sizeof_ptr; simpl; lia).
  split; [exact H2|].
  split; [reflexivity|].
  apply (reg_address_is_stable ILP32 [DoublePointer; ArrayPointer]
           init_state 2 H2).
  reflexivity.
Defined.
